(** * DoctorList: search filter and call dialog of the doctor directory

    Shallow embedding of [src/components/doctor-connect/DoctorList.tsx].

    The component keeps three pieces of local state ([searchTerm],
    [callingDoctor], [showCallDialog]), computes [filteredDoctors] at each
    render and has three handlers ([handleCallDoctor], [handleWhatsAppCall],
    [handleDirectCall]) plus the inline cancel handler of the dialog footer.
    Its outbound effects are [toast], [window.open], the assignment to
    [window.location.href] and [e.stopPropagation].

    Strings are [String.string]; one character stands for one code unit of
    the JavaScript string.  [String.prototype.toLowerCase] is a parameter of
    the development (Section [Component]): every result holds for any
    case mapping, and [toLowerCaseAscii] instantiates it to run examples. *)

From Stdlib Require Import String Ascii List Bool Arith ZArith Lia.
Import ListNotations.
Open Scope string_scope.

(** ** Strings *)

Module Str.

(** [s.startsWith(p)]: [p] is a prefix of [s]. *)
Fixpoint startsWith (s p : string) {struct p} : bool :=
  match p, s with
  | EmptyString, _ => true
  | String _ _, EmptyString => false
  | String a p', String b s' => Ascii.eqb a b && startsWith s' p'
  end.

(** [s.includes(sub)]: [sub] occurs in [s] at some position. *)
Fixpoint includes (s sub : string) : bool :=
  startsWith s sub ||
  match s with
  | EmptyString => false
  | String _ s' => includes s' sub
  end.

(** The mathematical notion of substring, [sub ⊆ s]. *)
Definition Substring (sub s : string) : Prop :=
  exists pre post, s = pre ++ sub ++ post.

(** ASCII instance of [toLowerCase]: [A]-[Z] go to [a]-[z]. *)
Definition lowerAscii (c : ascii) : ascii :=
  let n := nat_of_ascii c in
  if ((65 <=? n)%nat && (n <=? 90)%nat)%bool then ascii_of_nat (n + 32) else c.

Fixpoint toLowerCaseAscii (s : string) : string :=
  match s with
  | EmptyString => EmptyString
  | String c s' => String (lowerAscii c) (toLowerCaseAscii s')
  end.

End Str.

(** ** Data model *)

(** [availability: "Available" | "Busy" | "Away"]. *)
Inductive Availability : Type := Available | Busy | Away.

Definition availability_string (a : Availability) : string :=
  match a with
  | Available => "Available"
  | Busy => "Busy"
  | Away => "Away"
  end.

Definition availability_eqb (a b : Availability) : bool :=
  match a, b with
  | Available, Available | Busy, Busy | Away, Away => true
  | _, _ => false
  end.

(** [interface Doctor].  [rating] is a JavaScript number read only by the
    star display; it is kept here as a number of tenths. *)
Record Doctor : Type := mkDoctor {
  id : string;
  name : string;
  specialty : string;
  availability : Availability;
  image : string;
  rating : nat;
  experience : string;
  phone : string
}.

(** ** Regular expressions

    The fragment used by the component: an alternation of literal words,
    unanchored, with or without the [i] flag, run by [RegExp.prototype.test]
    on a fresh regular expression (so the search starts at index 0). *)

Module Regex.

(** Canonicalisation of the [i] flag restricted to what decides a comparison
    with an ASCII letter: [a]-[z] go to [A]-[Z].  A code unit above 127 never
    canonicalises to an ASCII one, so it is left alone. *)
Definition canonicalize (c : ascii) : ascii :=
  let n := nat_of_ascii c in
  if ((97 <=? n)%nat && (n <=? 122)%nat)%bool then ascii_of_nat (n - 32) else c.

Definition char_eqb (ignoreCase : bool) (a b : ascii) : bool :=
  if ignoreCase then Ascii.eqb (canonicalize a) (canonicalize b)
  else Ascii.eqb a b.

(** The literal word [word] matches at the start of [s]. *)
Fixpoint matchAt (ignoreCase : bool) (word s : string) {struct word} : bool :=
  match word, s with
  | EmptyString, _ => true
  | String _ _, EmptyString => false
  | String a word', String b s' =>
      char_eqb ignoreCase a b && matchAt ignoreCase word' s'
  end.

(** [/w1|w2|.../.test(s)]: some alternative matches at some index of [s]. *)
Fixpoint test (ignoreCase : bool) (alts : list string) (s : string) : bool :=
  existsb (fun word => matchAt ignoreCase word s) alts ||
  match s with
  | EmptyString => false
  | String _ s' => test ignoreCase alts s'
  end.

(** What the match means: a factor of [s] equal to [word] up to the
    canonicalisation of each character. *)
Fixpoint sameWord (ignoreCase : bool) (a b : string) : Prop :=
  match a, b with
  | EmptyString, EmptyString => True
  | String x a', String y b' =>
      char_eqb ignoreCase x y = true /\ sameWord ignoreCase a' b'
  | _, _ => False
  end.

Definition Occurs (ignoreCase : bool) (word s : string) : Prop :=
  exists pre mid post, s = pre ++ mid ++ post /\ sameWord ignoreCase word mid.

End Regex.

(** ** Effects and component state *)

(** [variant] of a toast; the field is optional in the call. *)
Inductive ToastVariant : Type := VariantDefault | VariantDestructive.

(** Argument of [toast({ title, description, variant })]. *)
Record Toast : Type := mkToast {
  title : string;
  description : string;
  variant : option ToastVariant
}.

(** What a handler does to the outside, in the order it does it. *)
Inductive Effect : Type :=
| StopPropagation                          (* e.stopPropagation() *)
| ShowToast (t : Toast)                    (* toast(t) *)
| WindowOpen (url target : string)         (* window.open(url, target) *)
| LocationHref (url : string).             (* window.location.href = url *)

(** The props, the three [useState] cells, the environment string read by
    [handleDirectCall] and the log of effects, oldest first. *)
Record World : Type := mkWorld {
  doctors : list Doctor;
  searchTerm : string;
  callingDoctor : option Doctor;
  showCallDialog : bool;
  userAgent : string;
  effects : list Effect
}.

(** State on the first render: [useState("")], [useState(null)],
    [useState(false)]. *)
Definition initialWorld (ds : list Doctor) (ua : string) : World :=
  {| doctors := ds; searchTerm := ""; callingDoctor := None;
     showCallDialog := false; userAgent := ua; effects := [] |}.

(** A handler is a state transformer on the world.  Every handler reads the
    state cells before it sets any, so the value captured by the closure and
    the current value coincide. *)
Definition M (A : Type) : Type := World -> A * World.

Definition ret {A : Type} (a : A) : M A := fun w => (a, w).

Definition bind {A B : Type} (m : M A) (k : A -> M B) : M B :=
  fun w => let (a, w') := m w in k a w'.

Definition exec {A : Type} (m : M A) (w : World) : World := snd (m w).
Definition eval {A : Type} (m : M A) (w : World) : A := fst (m w).

Declare Scope m_scope.
Delimit Scope m_scope with M.
Notation "x <- m ;; k" := (bind m (fun x => k))
  (at level 61, m at next level, right associativity) : m_scope.
Notation "m ;; k" := (bind m (fun _ => k))
  (at level 61, right associativity) : m_scope.
Open Scope m_scope.

Definition emit (e : Effect) : M unit :=
  fun w => (tt, {| doctors := doctors w; searchTerm := searchTerm w;
                   callingDoctor := callingDoctor w;
                   showCallDialog := showCallDialog w;
                   userAgent := userAgent w;
                   effects := effects w ++ [e] |}).

Definition stopPropagation : M unit := emit StopPropagation.
Definition toast (t : Toast) : M unit := emit (ShowToast t).
Definition window_open (url target : string) : M unit :=
  emit (WindowOpen url target).
Definition set_location_href (url : string) : M unit :=
  emit (LocationHref url).

Definition getCallingDoctor : M (option Doctor) :=
  fun w => (callingDoctor w, w).
Definition getSearchTerm : M string := fun w => (searchTerm w, w).
Definition getDoctors : M (list Doctor) := fun w => (doctors w, w).
Definition navigator_userAgent : M string := fun w => (userAgent w, w).

Definition setSearchTerm (s : string) : M unit :=
  fun w => (tt, {| doctors := doctors w; searchTerm := s;
                   callingDoctor := callingDoctor w;
                   showCallDialog := showCallDialog w;
                   userAgent := userAgent w; effects := effects w |}).

Definition setCallingDoctor (d : option Doctor) : M unit :=
  fun w => (tt, {| doctors := doctors w; searchTerm := searchTerm w;
                   callingDoctor := d;
                   showCallDialog := showCallDialog w;
                   userAgent := userAgent w; effects := effects w |}).

Definition setShowCallDialog (b : bool) : M unit :=
  fun w => (tt, {| doctors := doctors w; searchTerm := searchTerm w;
                   callingDoctor := callingDoctor w;
                   showCallDialog := b;
                   userAgent := userAgent w; effects := effects w |}).

(** The two states of the dialog. *)
Definition Closed (w : World) : Prop :=
  callingDoctor w = None /\ showCallDialog w = false.

Definition OpenWith (d : Doctor) (w : World) : Prop :=
  callingDoctor w = Some d /\ showCallDialog w = true.

(** Projections of an effect log. *)
Definition notifications (l : list Effect) : list Toast :=
  flat_map (fun e => match e with ShowToast t => [t] | _ => [] end) l.

(** A navigation is a URL with the browsing context it is opened in:
    [Some target] for [window.open], [None] for the current document. *)
Definition navigations (l : list Effect) : list (string * option string) :=
  flat_map (fun e => match e with
                     | WindowOpen url target => [(url, Some target)]
                     | LocationHref url => [(url, None)]
                     | _ => []
                     end) l.

(** ** The component *)

Section Component.

(** [String.prototype.toLowerCase]. *)
Variable toLowerCase : string -> string.

(** [doctors.filter(doctor => ...)] with the search term of the render. *)
Definition filteredDoctors (ds : list Doctor) (term : string) : list Doctor :=
  filter (fun doctor =>
            Str.includes (toLowerCase (name doctor)) (toLowerCase term) ||
            Str.includes (toLowerCase (specialty doctor)) (toLowerCase term))
         ds.

Definition handleCallDoctor (doctor : Doctor) : M unit :=
  stopPropagation ;;
  if negb (availability_eqb (availability doctor) Available) then
    toast {| title := "Doctor Unavailable";
             description :=
               name doctor ++ " is currently " ++
               toLowerCase (availability_string (availability doctor)) ++
               ". Please try again later.";
             variant := Some VariantDestructive |}
  else
    setCallingDoctor (Some doctor) ;;
    setShowCallDialog true.

Definition handleWhatsAppCall : M unit :=
  c <- getCallingDoctor ;;
  match c with
  | Some d =>
      let whatsappLink := "https://wa.me/" ++ phone d in
      window_open whatsappLink "_blank" ;;
      setShowCallDialog false
  | None => ret tt
  end.

Definition mobilePlatforms : list string :=
  ["iPhone"; "iPad"; "iPod"; "Android"].

(** [/iPhone|iPad|iPod|Android/i.test(ua)]. *)
Definition isMobile (ua : string) : bool :=
  Regex.test true mobilePlatforms ua.

Definition handleDirectCall : M unit :=
  c <- getCallingDoctor ;;
  match c with
  | Some d =>
      ua <- navigator_userAgent ;;
      (if isMobile ua then
         set_location_href ("tel:" ++ phone d)
       else
         toast {| title := "Desktop Detected";
                  description :=
                    "Direct calling is only available on mobile devices.";
                  variant := None |}) ;;
      setShowCallDialog false
  | None => ret tt
  end.

(** The [onClick] of the Cancel button. *)
Definition handleCancel : M unit := setShowCallDialog false.

(** The render-time computation of the rows. *)
Definition renderRows : M (list Doctor) :=
  ds <- getDoctors ;;
  term <- getSearchTerm ;;
  ret (filteredDoctors ds term).

(** The operations of the component. *)
Inductive Op : Type :=
| OpSearch (s : string)        (* typing in the search box *)
| OpFilter                     (* computing the filtered rows *)
| OpCallDoctor (d : Doctor)    (* contact-attempt on a row *)
| OpWhatsApp                   (* messaging action of the dialog *)
| OpDirectCall                 (* direct-call action of the dialog *)
| OpCancel.                    (* cancel button of the dialog *)

Definition runOp (o : Op) : M unit :=
  match o with
  | OpSearch s => setSearchTerm s
  | OpFilter => renderRows ;; ret tt
  | OpCallDoctor d => handleCallDoctor d
  | OpWhatsApp => handleWhatsAppCall
  | OpDirectCall => handleDirectCall
  | OpCancel => handleCancel
  end.

Fixpoint runOps (ops : list Op) : M unit :=
  match ops with
  | [] => ret tt
  | o :: ops' => runOp o ;; runOps ops'
  end.

(** The retained contacts, as the specification words them: [c] is kept
    when the folded term is a substring of its folded name or of its folded
    specialty. *)
Definition Matches (term : string) (c : Doctor) : Prop :=
  Str.Substring (toLowerCase term) (toLowerCase (name c)) \/
  Str.Substring (toLowerCase term) (toLowerCase (specialty c)).

End Component.

(** [Kept P l r]: [r] is [l] with exactly the elements satisfying [P],
    each as often as in [l] and in the order of [l]. *)
Inductive Kept (P : Doctor -> Prop) : list Doctor -> list Doctor -> Prop :=
| Kept_nil : Kept P [] []
| Kept_take c l r : P c -> Kept P l r -> Kept P (c :: l) (c :: r)
| Kept_drop c l r : ~ P c -> Kept P l r -> Kept P (c :: l) r.

(** ** Sample data *)

Definition drSarah : Doctor :=
  {| id := "1"; name := "Dr. Sarah Johnson"; specialty := "Gynecologist";
     availability := Available; image := "/doctors/sarah.jpg"; rating := 48;
     experience := "12 years"; phone := "15551234567" |}.

Definition drPriya : Doctor :=
  {| id := "2"; name := "Dr. Priya Patel"; specialty := "Obstetrician";
     availability := Busy; image := "/doctors/priya.jpg"; rating := 46;
     experience := "8 years"; phone := "+91 98765-43210" |}.

Definition drEmily : Doctor :=
  {| id := "3"; name := "Dr. Emily Chen"; specialty := "Endocrinologist";
     availability := Away; image := ""; rating := 49;
     experience := "15 years"; phone := "" |}.

Definition sampleDoctors : list Doctor := [drSarah; drPriya; drEmily].

Definition desktopAgent : string :=
  "Mozilla/5.0 (X11; Linux x86_64) AppleWebKit/537.36 Chrome/120.0 Safari/537.36".

Definition mobileAgent : string :=
  "Mozilla/5.0 (Linux; ANDROID 14; Pixel 8) AppleWebKit/537.36 Mobile Safari/537.36".

(** The dialog open on [d]. *)
Definition openWorld (ds : list Doctor) (ua : string) (d : Doctor) : World :=
  {| doctors := ds; searchTerm := ""; callingDoctor := Some d;
     showCallDialog := true; userAgent := ua; effects := [] |}.

Definition closedDesktop : World := initialWorld sampleDoctors desktopAgent.
Definition openDesktop : World := openWorld sampleDoctors desktopAgent drSarah.
Definition openMobile : World := openWorld sampleDoctors mobileAgent drSarah.

(** ** Rendering

    What the returned JSX computes from the props and the state: the
    initials of the avatar fallback, the five stars, the badge, the two
    buttons of a row, and the choice between the rows and the
    no-result message. *)

Module Words.

(** [s.split(sep)] for a one-character separator, as the first piece and
    the pieces after it: the result of [split] is never empty. *)
Fixpoint pieces (sep : ascii) (s : string) : string * list string :=
  match s with
  | EmptyString => (EmptyString, [])
  | String c s' =>
      let (w, ws) := pieces sep s' in
      if Ascii.eqb c sep then (EmptyString, w :: ws) else (String c w, ws)
  end.

Definition split (s : string) (sep : ascii) : list string :=
  let (w, ws) := pieces sep s in w :: ws.

(** [n[0]]: the first character, [undefined] on the empty string. *)
Definition first (n : string) : option string :=
  match n with
  | EmptyString => None
  | String c _ => Some (String c EmptyString)
  end.

(** How [join] prints an element: [undefined] as the empty string. *)
Definition element_string (x : option string) : string :=
  match x with
  | Some s => s
  | None => EmptyString
  end.

(** [l.join(sep)]. *)
Fixpoint join (l : list (option string)) (sep : string) : string :=
  match l with
  | [] => EmptyString
  | x :: rest =>
      match rest with
      | [] => element_string x
      | _ :: _ => element_string x ++ sep ++ join rest sep
      end
  end.

(** A string without the character [c]. *)
Fixpoint lacks (c : ascii) (s : string) : Prop :=
  match s with
  | EmptyString => True
  | String x s' => x <> c /\ lacks c s'
  end.

(** A string made of the character [c] only. *)
Fixpoint only (c : ascii) (s : string) : Prop :=
  match s with
  | EmptyString => True
  | String x s' => x = c /\ only c s'
  end.

End Words.

(** [name.split(' ').map(n => n[0]).join('')]. *)
Definition initials (name : string) : string :=
  Words.join (map Words.first (Words.split name " "%char)) "".

(** [Math.floor(doctor.rating)], the rating being held in tenths. *)
Definition floorRating (d : Doctor) : Z := Z.of_nat (rating d / 10).

(** [[...Array(5)].map((_, i) => i < floor ? yellow : gray)]: [true] is a
    yellow star. *)
Definition stars (floor : Z) : list bool :=
  map (fun i => (Z.of_nat i <? floor)%Z) (seq 0 5).

(** The class of the availability badge. *)
Definition badgeClass (a : Availability) : string :=
  if availability_eqb a Available then "bg-green-500"
  else if availability_eqb a Busy then "bg-amber-500"
  else "bg-gray-500".

(** [selectedDoctor?.id === doctor.id]. *)
Definition isSelected (selectedDoctor : option Doctor) (doctor : Doctor)
  : bool :=
  match selectedDoctor with
  | Some s => String.eqb (id s) (id doctor)
  | None => false
  end.

(** One card of the list. *)
Record Row : Type := mkRow {
  row_key : string;
  row_highlighted : bool;
  row_initials : string;
  row_name : string;
  row_specialty : string;
  row_stars : list bool;
  row_experience : string;
  row_badgeClass : string;
  row_badgeText : string;
  row_connectVariant : string;
  row_connectDisabled : bool;
  row_connectLabel : string;
  row_callDisabled : bool
}.

Definition renderRow (selectedDoctor : option Doctor) (doctor : Doctor)
  : Row :=
  {| row_key := id doctor;
     row_highlighted := isSelected selectedDoctor doctor;
     row_initials := initials (name doctor);
     row_name := name doctor;
     row_specialty := specialty doctor;
     row_stars := stars (floorRating doctor);
     row_experience := experience doctor;
     row_badgeClass := badgeClass (availability doctor);
     row_badgeText := availability_string (availability doctor);
     row_connectVariant :=
       if isSelected selectedDoctor doctor then "default" else "outline";
     row_connectDisabled :=
       negb (availability_eqb (availability doctor) Available);
     row_connectLabel :=
       if availability_eqb (availability doctor) Available
       then "Connect Now" else "Unavailable";
     row_callDisabled :=
       negb (availability_eqb (availability doctor) Available) |}.

(** The content of the scroll area. *)
Inductive View : Type :=
| NoResults                  (* "No doctors found matching your search." *)
| Rows (rows : list Row).

Section Rendering.

Variable toLowerCase : string -> string.

(** [filteredDoctors.length === 0 ? ... : filteredDoctors.map(...)]. *)
Definition render (ds : list Doctor) (selectedDoctor : option Doctor)
  (term : string) : View :=
  let filtered := filteredDoctors toLowerCase ds term in
  if Nat.eqb (List.length filtered) 0 then NoResults
  else Rows (map (renderRow selectedDoctor) filtered).

End Rendering.

(** States the component reaches: the initial one followed by any
    operations. *)
Definition reached (toLowerCase : string -> string) (ds : list Doctor)
  (ua : string) (ops : list Op) : World :=
  exec (runOps toLowerCase ops) (initialWorld ds ua).

(** The two links the component builds. *)
Definition whatsappLink (d : Doctor) : string * option string :=
  ("https://wa.me/" ++ phone d, Some "_blank").

Definition telLink (d : Doctor) : string * option string :=
  ("tel:" ++ phone d, None).

(** [nav] is one of the two links of an available contact on which a
    contact-attempt was made in [ops]. *)
Definition CallsAvailable (ops : list Op) (nav : string * option string)
  : Prop :=
  exists d, availability d = Available /\ In (OpCallDoctor d) ops /\
            (nav = whatsappLink d \/ nav = telLink d).

(** The toast of the direct-call action outside a mobile environment. *)
Definition desktopToast : Toast :=
  {| title := "Desktop Detected";
     description := "Direct calling is only available on mobile devices.";
     variant := None |}.

(** The dialog hidden with the target [d] still set. *)
Definition hiddenWorld (ds : list Doctor) (ua : string) (d : Doctor) : World :=
  {| doctors := ds; searchTerm := ""; callingDoctor := Some d;
     showCallDialog := false; userAgent := ua; effects := [] |}.

(** * Properties *)

(** ** Strings *)

Module StrFacts.
Import Str.

Lemma append_assoc (a b c : string) : (a ++ b) ++ c = a ++ (b ++ c).
Proof. induction a as [|x a IH]; simpl; [reflexivity | now rewrite IH]. Qed.

Lemma append_empty_r (a : string) : a ++ "" = a.
Proof. induction a as [|x a IH]; simpl; [reflexivity | now rewrite IH]. Qed.

Lemma startsWith_append (p rest : string) : startsWith (p ++ rest) p = true.
Proof.
  induction p as [|a p IH]; simpl; [reflexivity|].
  now rewrite Ascii.eqb_refl, IH.
Qed.

Lemma startsWith_inv (s p : string) :
  startsWith s p = true -> exists rest, s = p ++ rest.
Proof.
  revert s; induction p as [|a p IH]; intros s H.
  - now exists s.
  - destruct s as [|b s]; simpl in H; [discriminate|].
    apply andb_true_iff in H as [Hab Hs].
    apply Ascii.eqb_eq in Hab; subst b.
    destruct (IH _ Hs) as [rest ->].
    now exists rest.
Qed.

Lemma startsWith_empty (s : string) : startsWith s "" = true.
Proof. now destruct s. Qed.

Lemma includes_empty (s : string) : includes s "" = true.
Proof. destruct s; reflexivity. Qed.

Lemma includes_startsWith (s sub : string) :
  startsWith s sub = true -> includes s sub = true.
Proof. destruct s; simpl; intros ->; reflexivity. Qed.

Lemma includes_append (pre sub post : string) :
  includes (pre ++ sub ++ post) sub = true.
Proof.
  induction pre as [|a pre IH]; simpl.
  - apply includes_startsWith, startsWith_append.
  - rewrite IH. apply orb_true_r.
Qed.

(** [includes] decides [Substring]. *)
Lemma includes_spec (s sub : string) :
  includes s sub = true <-> Substring sub s.
Proof.
  split.
  - induction s as [|a s IH]; simpl; intros H.
    + rewrite orb_false_r in H.
      destruct (startsWith_inv _ _ H) as [rest E].
      now exists "", rest.
    + apply orb_true_iff in H as [H|H].
      * destruct (startsWith_inv _ _ H) as [rest E].
        now exists "", rest.
      * destruct (IH H) as (pre & post & E).
        exists (String a pre), post. simpl. now rewrite E.
  - intros (pre & post & ->). apply includes_append.
Qed.

Lemma includes_false_spec (s sub : string) :
  includes s sub = false <-> ~ Substring sub s.
Proof.
  rewrite <- includes_spec. destruct (includes s sub); split; intros H;
    try reflexivity; try discriminate; try (intros H'; discriminate).
  exfalso; now apply H.
Qed.

Lemma toLowerCaseAscii_empty : toLowerCaseAscii "" = "".
Proof. reflexivity. Qed.

End StrFacts.

(** ** Regular expressions *)

Module RegexFacts.
Import Regex.

Section Flag.

Variable ignoreCase : bool.

Lemma matchAt_sound (word s : string) :
  matchAt ignoreCase word s = true ->
  exists mid post, s = mid ++ post /\ sameWord ignoreCase word mid.
Proof.
  revert s; induction word as [|a word IH]; intros s H.
  - exists "", s. split; [reflexivity | exact I].
  - destruct s as [|b s]; simpl in H; [discriminate|].
    apply andb_true_iff in H as [Hab Hrest].
    destruct (IH _ Hrest) as (mid & post & -> & Hsame).
    exists (String b mid), post. split; [reflexivity|].
    simpl. split; assumption.
Qed.

Lemma matchAt_complete (word mid post : string) :
  sameWord ignoreCase word mid ->
  matchAt ignoreCase word (mid ++ post) = true.
Proof.
  revert mid; induction word as [|a word IH]; intros mid H.
  - reflexivity.
  - destruct mid as [|b mid]; simpl in H; [contradiction|].
    destruct H as [Hab Hrest]. simpl.
    rewrite Hab. now apply IH.
Qed.

Lemma test_sound (alts : list string) (s : string) :
  test ignoreCase alts s = true ->
  exists word, In word alts /\ Occurs ignoreCase word s.
Proof.
  induction s as [|c s IH]; simpl; intros H;
    apply orb_true_iff in H as [H|H]; try discriminate.
  - apply existsb_exists in H as (word & Hin & Hm).
    destruct (matchAt_sound _ _ Hm) as (mid & post & E & Hsame).
    exists word; split; [assumption|]. now exists "", mid, post.
  - apply existsb_exists in H as (word & Hin & Hm).
    destruct (matchAt_sound _ _ Hm) as (mid & post & E & Hsame).
    exists word; split; [assumption|]. now exists "", mid, post.
  - destruct (IH H) as (word & Hin & pre & mid & post & -> & Hsame).
    exists word; split; [assumption|].
    now exists (String c pre), mid, post.
Qed.

Lemma test_complete (alts : list string) (word s : string) :
  In word alts -> Occurs ignoreCase word s ->
  test ignoreCase alts s = true.
Proof.
  intros Hin (pre & mid & post & -> & Hsame).
  induction pre as [|c pre IH].
  - assert (Hex : existsb (fun w => matchAt ignoreCase w (mid ++ post)) alts
                  = true).
    { apply existsb_exists. exists word. split; [assumption|].
      now apply matchAt_complete. }
    simpl append. destruct (mid ++ post); simpl; simpl in Hex;
      rewrite Hex; reflexivity.
  - simpl. rewrite IH. apply orb_true_r.
Qed.

End Flag.

(** [test] decides whether one of the alternatives occurs. *)
Lemma test_spec (ignoreCase : bool) (alts : list string) (s : string) :
  test ignoreCase alts s = true <->
  exists word, In word alts /\ Occurs ignoreCase word s.
Proof.
  split.
  - apply test_sound.
  - intros (word & Hin & Hocc). eapply test_complete; eauto.
Qed.

Lemma test_false_spec (ignoreCase : bool) (alts : list string) (s : string) :
  test ignoreCase alts s = false <->
  forall word, In word alts -> ~ Occurs ignoreCase word s.
Proof.
  split.
  - intros H word Hin Hocc.
    assert (Ht : test ignoreCase alts s = true)
      by (eapply test_complete; eauto).
    congruence.
  - intros H. destruct (test ignoreCase alts s) eqn:E; [|reflexivity].
    apply test_sound in E as (word & Hin & Hocc).
    exfalso. exact (H word Hin Hocc).
Qed.

End RegexFacts.

(** ** Data model *)

Lemma availability_eqb_eq (a b : Availability) :
  availability_eqb a b = true <-> a = b.
Proof. destruct a, b; simpl; split; congruence. Qed.

Lemma notifications_app (l1 l2 : list Effect) :
  notifications (l1 ++ l2)%list = (notifications l1 ++ notifications l2)%list.
Proof. apply flat_map_app. Qed.

Lemma navigations_app (l1 l2 : list Effect) :
  navigations (l1 ++ l2)%list = (navigations l1 ++ navigations l2)%list.
Proof. apply flat_map_app. Qed.

(** [Kept] is functional in its last argument. *)
Lemma Kept_unique (P : Doctor -> Prop) (l r1 r2 : list Doctor) :
  Kept P l r1 -> Kept P l r2 -> r1 = r2.
Proof.
  intros H1; revert r2; induction H1; intros r2 H2; inversion H2; subst;
    try reflexivity; try contradiction.
  - f_equal. now apply IHKept.
  - now apply IHKept.
Qed.

Lemma Kept_In (P : Doctor -> Prop) (l r : list Doctor) :
  Kept P l r -> forall c, In c r <-> In c l /\ P c.
Proof.
  induction 1; intros x; simpl.
  - tauto.
  - rewrite IHKept. split.
    + intros [->|[? ?]]; auto.
    + intros [[->|?] ?]; auto.
  - rewrite IHKept. split.
    + intros [? ?]; auto.
    + intros [[->|?] ?]; [contradiction | auto].
Qed.

(** ** The component *)

(** Unfolds a handler down to the record it returns. *)
Ltac run_handler :=
  unfold exec, eval, handleCallDoctor, handleWhatsAppCall, handleDirectCall,
    handleCancel, renderRows, bind, ret, stopPropagation, toast, window_open,
    set_location_href, emit, getCallingDoctor, getSearchTerm, getDoctors,
    navigator_userAgent, setSearchTerm, setCallingDoctor, setShowCallDialog;
  cbn [fst snd doctors searchTerm callingDoctor showCallDialog userAgent
       effects].

Section Facts.

Variable toLowerCase : string -> string.

Lemma filter_test_spec (term : string) (c : Doctor) :
  Str.includes (toLowerCase (name c)) (toLowerCase term) ||
  Str.includes (toLowerCase (specialty c)) (toLowerCase term) = true <->
  Matches toLowerCase term c.
Proof.
  unfold Matches. rewrite orb_true_iff, !StrFacts.includes_spec. tauto.
Qed.

Lemma filteredDoctors_Kept (L : list Doctor) (s : string) :
  Kept (Matches toLowerCase s) L (filteredDoctors toLowerCase L s).
Proof.
  unfold filteredDoctors.
  induction L as [|c L IH]; simpl.
  - constructor.
  - destruct (Str.includes (toLowerCase (name c)) (toLowerCase s) ||
              Str.includes (toLowerCase (specialty c)) (toLowerCase s))
      eqn:E.
    + apply Kept_take; [now apply filter_test_spec | exact IH].
    + apply Kept_drop; [|exact IH].
      intros HM. apply filter_test_spec in HM. congruence.
Qed.

(** C1. For every list of contacts [L] and search string [s], the filtered
    list is exactly the contacts [c] of [L] such that the case-folded [s] is
    a substring of the case-folded name of [c] or of its case-folded
    specialty, in the relative order of [L]: it is the one list [Kept] from
    [L] by that condition, and its members are the members of [L] that
    satisfy it. *)
Theorem filteredDoctors_exact (L : list Doctor) (s : string) :
  Kept (Matches toLowerCase s) L (filteredDoctors toLowerCase L s) /\
  (forall R, Kept (Matches toLowerCase s) L R -> R = filteredDoctors toLowerCase L s) /\
  (forall c, In c (filteredDoctors toLowerCase L s) <-> In c L /\ Matches toLowerCase s c).
Proof.
  pose proof (filteredDoctors_Kept L s) as HK.
  split; [exact HK | split].
  - intros R HR. exact (Kept_unique _ _ _ _ HR HK).
  - exact (Kept_In _ _ _ HK).
Qed.

(** C8. Filtering with the empty search string yields the input list
    unchanged, in the same order, for a case mapping that maps the empty
    string to itself. *)
Theorem filteredDoctors_empty_term (L : list Doctor) :
  toLowerCase "" = "" ->
  filteredDoctors toLowerCase L "" = L.
Proof.
  intros Hempty. unfold filteredDoctors. rewrite Hempty.
  induction L as [|c L IH]; simpl; [reflexivity|].
  rewrite StrFacts.includes_empty. simpl. now rewrite IH.
Qed.

(** C2. A contact-attempt on a contact that is not [Available] produces
    exactly one notification, destructive-styled, whose message contains the
    contact's name and its lower-cased availability status; it performs no
    navigation and leaves the dialog state unchanged, so a closed dialog
    stays closed. *)
Theorem handleCallDoctor_unavailable (d : Doctor) (w : World) :
  availability d <> Available ->
  exists t,
    effects (exec (handleCallDoctor toLowerCase d) w)
      = (effects w ++ [StopPropagation; ShowToast t])%list /\
    notifications (effects (exec (handleCallDoctor toLowerCase d) w))
      = (notifications (effects w) ++ [t])%list /\
    navigations (effects (exec (handleCallDoctor toLowerCase d) w)) = navigations (effects w) /\
    variant t = Some VariantDestructive /\
    Str.Substring (name d) (description t) /\
    Str.Substring (toLowerCase (availability_string (availability d)))
                  (description t) /\
    callingDoctor (exec (handleCallDoctor toLowerCase d) w) = callingDoctor w /\
    showCallDialog (exec (handleCallDoctor toLowerCase d) w) = showCallDialog w /\
    (Closed w -> Closed (exec (handleCallDoctor toLowerCase d) w)).
Proof.
  intros Hav.
  assert (E : negb (availability_eqb (availability d) Available) = true).
  { destruct (availability d); [contradiction | reflexivity | reflexivity]. }
  run_handler. rewrite E. run_handler.
  eexists. split; [now rewrite <- app_assoc|].
  rewrite !notifications_app, !navigations_app. cbn [notifications
    navigations flat_map app variant description].
  rewrite !app_nil_r.
  repeat split; try reflexivity.
  - exists "", (" is currently " ++
                toLowerCase (availability_string (availability d)) ++
                ". Please try again later."). reflexivity.
  - exists (name d ++ " is currently "), ". Please try again later.".
    now rewrite StrFacts.append_assoc.
  - apply H.
  - apply H.
Qed.

(** C3. A contact-attempt on an [Available] contact opens the dialog on
    that contact (target set to it, visible) and emits no notification and
    no navigation. *)
Theorem handleCallDoctor_available (d : Doctor) (w : World) :
  availability d = Available ->
  OpenWith d (exec (handleCallDoctor toLowerCase d) w) /\
  effects (exec (handleCallDoctor toLowerCase d) w) = (effects w ++ [StopPropagation])%list /\
  notifications (effects (exec (handleCallDoctor toLowerCase d) w))
    = notifications (effects w) /\
  navigations (effects (exec (handleCallDoctor toLowerCase d) w)) = navigations (effects w).
Proof.
  intros Hav. unfold OpenWith. run_handler. rewrite Hav.
  cbn [availability_eqb negb]. run_handler.
  rewrite notifications_app, navigations_app. simpl. rewrite !app_nil_r.
  repeat split; reflexivity.
Qed.

(** C4, as the code has it. From the dialog open on a contact with phone
    [p], the messaging action performs exactly one navigation, to
    ["https://wa.me/" ++ p] with [p] verbatim, opened in a new browsing
    context ([_blank]); it emits no notification and hides the dialog. The
    target contact stays set. *)
Theorem handleWhatsAppCall_open (d : Doctor) (w : World) :
  OpenWith d w ->
  effects (exec handleWhatsAppCall w)
    = (effects w ++ [WindowOpen ("https://wa.me/" ++ phone d)%string "_blank"])%list /\
  navigations (effects (exec handleWhatsAppCall w))
    = (navigations (effects w)
       ++ [(("https://wa.me/" ++ phone d)%string, Some "_blank")])%list /\
  notifications (effects (exec handleWhatsAppCall w))
    = notifications (effects w) /\
  showCallDialog (exec handleWhatsAppCall w) = false /\
  callingDoctor (exec handleWhatsAppCall w) = Some d.
Proof.
  intros [Ht _]. run_handler. rewrite Ht. run_handler.
  rewrite notifications_app, navigations_app. simpl. rewrite !app_nil_r.
  repeat split; (reflexivity || exact Ht).
Qed.

(** C5, as the code has it. From the dialog open on a contact, the
    direct-call action in an environment whose user-agent string contains
    none of the mobile platform identifiers (compared without regard to
    case, as the regular expression does) emits exactly one notification,
    of the default, neutral style (no variant given), saying that direct
    calling is only available on mobile devices; it performs no navigation and hides the dialog. The
    target contact stays set. *)
Theorem handleDirectCall_desktop (d : Doctor) (w : World) :
  OpenWith d w ->
  (forall word, In word mobilePlatforms ->
                ~ Regex.Occurs true word (userAgent w)) ->
  exists t,
    effects (exec handleDirectCall w) = (effects w ++ [ShowToast t])%list /\
    notifications (effects (exec handleDirectCall w))
      = (notifications (effects w) ++ [t])%list /\
    navigations (effects (exec handleDirectCall w))
      = navigations (effects w) /\
    variant t = None /\
    description t = "Direct calling is only available on mobile devices." /\
    showCallDialog (exec handleDirectCall w) = false /\
    callingDoctor (exec handleDirectCall w) = Some d.
Proof.
  intros [Ht _] Hua.
  apply RegexFacts.test_false_spec in Hua. fold (isMobile (userAgent w)) in Hua.
  run_handler. rewrite Ht. run_handler. rewrite Hua. run_handler.
  eexists. split; [reflexivity|].
  rewrite notifications_app, navigations_app. simpl. rewrite !app_nil_r.
  repeat split; (reflexivity || exact Ht).
Qed.

(** C6, as the code has it. From the dialog open on a contact with phone
    [p], the direct-call action in an environment whose user-agent string
    contains a mobile platform identifier performs exactly one navigation,
    to ["tel:" ++ p] in the current document; it emits no notification and
    hides the dialog. The target contact stays set. *)
Theorem handleDirectCall_mobile (d : Doctor) (w : World) :
  OpenWith d w ->
  (exists word, In word mobilePlatforms /\
                Regex.Occurs true word (userAgent w)) ->
  effects (exec handleDirectCall w)
    = (effects w ++ [LocationHref ("tel:" ++ phone d)%string])%list /\
  navigations (effects (exec handleDirectCall w))
    = (navigations (effects w) ++ [(("tel:" ++ phone d)%string, None)])%list /\
  notifications (effects (exec handleDirectCall w))
    = notifications (effects w) /\
  showCallDialog (exec handleDirectCall w) = false /\
  callingDoctor (exec handleDirectCall w) = Some d.
Proof.
  intros [Ht _] Hua.
  apply RegexFacts.test_spec in Hua. fold (isMobile (userAgent w)) in Hua.
  run_handler. rewrite Ht. run_handler. rewrite Hua. run_handler.
  rewrite notifications_app, navigations_app. simpl. rewrite !app_nil_r.
  repeat split; (reflexivity || exact Ht).
Qed.

(** C7, as the code has it. From the dialog open on a contact, cancel
    hides the dialog and has no side effect: the effect log is unchanged, so
    there is no navigation and no notification. The target contact stays
    set. *)
Theorem handleCancel_open (d : Doctor) (w : World) :
  OpenWith d w ->
  effects (exec handleCancel w) = effects w /\
  showCallDialog (exec handleCancel w) = false /\
  callingDoctor (exec handleCancel w) = Some d.
Proof.
  intros [Ht _]. run_handler. repeat split; (reflexivity || exact Ht).
Qed.

Lemma runOp_doctors (o : Op) (w : World) :
  doctors (exec (runOp toLowerCase o) w) = doctors w.
Proof.
  destruct o as [s| |d| | |]; unfold runOp; run_handler; try reflexivity.
  - destruct (negb (availability_eqb (availability d) Available));
      reflexivity.
  - destruct (callingDoctor w); reflexivity.
  - destruct (callingDoctor w); [|reflexivity].
    run_handler. destruct (isMobile (userAgent w)); reflexivity.
Qed.

(** C9. No operation of the component (typing a search, filtering, a
    contact-attempt, the messaging action, the direct-call action, cancel)
    changes the supplied contact list: after any sequence of them the list
    is the initial one, so every contact is at its position with the fields
    it had. *)
Theorem runOps_doctors (ops : list Op) (w : World) :
  doctors (exec (runOps toLowerCase ops) w) = doctors w /\
  (forall i, nth_error (doctors (exec (runOps toLowerCase ops) w)) i
             = nth_error (doctors w) i) /\
  exec (renderRows toLowerCase) w = w.
Proof.
  assert (H : doctors (exec (runOps toLowerCase ops) w) = doctors w).
  { revert w; induction ops as [|o ops IH]; intros w; [reflexivity|].
    cbn [runOps]. unfold exec, bind in *.
    pose proof (runOp_doctors o w) as Ho. unfold exec in Ho.
    destruct (runOp toLowerCase o w) as [u w1]. cbn [snd] in *.
    now rewrite IH. }
  split; [exact H | split].
  - intros i. now rewrite H.
  - reflexivity.
Qed.

(** C10. With no target contact set, the messaging action and the
    direct-call action do nothing: the world they return is the one they
    were given, so there is no navigation, no notification and no change of
    the dialog state. *)
Theorem handlers_without_target (w : World) :
  callingDoctor w = None ->
  handleWhatsAppCall w = (tt, w) /\ handleDirectCall w = (tt, w).
Proof.
  intros Hnone. unfold handleWhatsAppCall, handleDirectCall, bind,
    getCallingDoctor, ret.
  rewrite Hnone. split; reflexivity.
Qed.

End Facts.

(** ** The component on the sample data *)

Example filter_by_specialty :
  map name (filteredDoctors Str.toLowerCaseAscii sampleDoctors "CRIN")
  = ["Dr. Emily Chen"].
Proof. reflexivity. Qed.

Example filter_by_name_or_specialty :
  map name (filteredDoctors Str.toLowerCaseAscii sampleDoctors "ob")
  = ["Dr. Priya Patel"].
Proof. reflexivity. Qed.

Example filter_keeps_order :
  map name (filteredDoctors Str.toLowerCaseAscii sampleDoctors "dr. ")
  = ["Dr. Sarah Johnson"; "Dr. Priya Patel"; "Dr. Emily Chen"].
Proof. reflexivity. Qed.

Example filter_no_match :
  filteredDoctors Str.toLowerCaseAscii sampleDoctors "dentist" = [].
Proof. reflexivity. Qed.

Example busy_toast :
  notifications
    (effects (exec (handleCallDoctor Str.toLowerCaseAscii drPriya)
                   closedDesktop))
  = [ {| title := "Doctor Unavailable";
         description :=
           "Dr. Priya Patel is currently busy. Please try again later.";
         variant := Some VariantDestructive |} ].
Proof. reflexivity. Qed.

Example desktop_toast :
  effects (exec handleDirectCall openDesktop)
  = [ ShowToast
        {| title := "Desktop Detected";
           description :=
             "Direct calling is only available on mobile devices.";
           variant := None |} ].
Proof. reflexivity. Qed.

Example isMobile_samples :
  isMobile desktopAgent = false /\ isMobile mobileAgent = true /\
  isMobile "my ipad" = true /\ isMobile "iPho ne" = false.
Proof. repeat split; reflexivity. Qed.

Example phone_is_verbatim :
  effects (exec handleWhatsAppCall
             (openWorld sampleDoctors desktopAgent drPriya))
  = [WindowOpen "https://wa.me/+91 98765-43210" "_blank"].
Proof. reflexivity. Qed.

Lemma filteredDoctors_empty_term_witness :
  Str.toLowerCaseAscii "" = "" /\
  filteredDoctors Str.toLowerCaseAscii sampleDoctors "" = sampleDoctors.
Proof.
  split; [reflexivity|].
  apply (filteredDoctors_empty_term Str.toLowerCaseAscii sampleDoctors).
  reflexivity.
Defined.

Lemma handleCallDoctor_unavailable_witness :
  availability drPriya <> Available /\
  exists t,
    effects (exec (handleCallDoctor Str.toLowerCaseAscii drPriya) closedDesktop)
      = (effects closedDesktop ++ [StopPropagation; ShowToast t])%list /\
    notifications
      (effects (exec (handleCallDoctor Str.toLowerCaseAscii drPriya)
                     closedDesktop))
      = (notifications (effects closedDesktop) ++ [t])%list /\
    navigations
      (effects (exec (handleCallDoctor Str.toLowerCaseAscii drPriya)
                     closedDesktop))
      = navigations (effects closedDesktop) /\
    variant t = Some VariantDestructive /\
    Str.Substring (name drPriya) (description t) /\
    Str.Substring
      (Str.toLowerCaseAscii (availability_string (availability drPriya)))
      (description t) /\
    callingDoctor (exec (handleCallDoctor Str.toLowerCaseAscii drPriya)
                        closedDesktop)
      = callingDoctor closedDesktop /\
    showCallDialog (exec (handleCallDoctor Str.toLowerCaseAscii drPriya)
                         closedDesktop)
      = showCallDialog closedDesktop /\
    (Closed closedDesktop ->
     Closed (exec (handleCallDoctor Str.toLowerCaseAscii drPriya)
                  closedDesktop)).
Proof.
  assert (H : availability drPriya <> Available) by (simpl; discriminate).
  split; [exact H|].
  exact (handleCallDoctor_unavailable Str.toLowerCaseAscii drPriya
           closedDesktop H).
Defined.

Lemma handleCallDoctor_available_witness :
  availability drSarah = Available /\
  OpenWith drSarah
    (exec (handleCallDoctor Str.toLowerCaseAscii drSarah) closedDesktop) /\
  notifications
    (effects (exec (handleCallDoctor Str.toLowerCaseAscii drSarah)
                   closedDesktop))
    = notifications (effects closedDesktop).
Proof.
  split; [reflexivity|].
  destruct (handleCallDoctor_available Str.toLowerCaseAscii drSarah
              closedDesktop eq_refl) as (Hopen & _ & Hnote & _).
  split; [exact Hopen | exact Hnote].
Defined.

Lemma handleWhatsAppCall_open_witness :
  OpenWith drSarah openDesktop /\
  navigations (effects (exec handleWhatsAppCall openDesktop))
    = [("https://wa.me/15551234567", Some "_blank")] /\
  showCallDialog (exec handleWhatsAppCall openDesktop) = false /\
  callingDoctor (exec handleWhatsAppCall openDesktop) = Some drSarah.
Proof.
  assert (H : OpenWith drSarah openDesktop) by (split; reflexivity).
  split; [exact H|].
  destruct (handleWhatsAppCall_open drSarah openDesktop H)
    as (_ & Hnav & _ & Hvis & Htarget).
  split; [exact Hnav | split; [exact Hvis | exact Htarget]].
Defined.

Lemma handleDirectCall_desktop_witness :
  OpenWith drSarah openDesktop /\
  (forall word, In word mobilePlatforms ->
                ~ Regex.Occurs true word (userAgent openDesktop)) /\
  exists t,
    notifications (effects (exec handleDirectCall openDesktop)) = [t] /\
    navigations (effects (exec handleDirectCall openDesktop)) = [] /\
    showCallDialog (exec handleDirectCall openDesktop) = false.
Proof.
  assert (H : OpenWith drSarah openDesktop) by (split; reflexivity).
  assert (Hua : forall word, In word mobilePlatforms ->
                  ~ Regex.Occurs true word (userAgent openDesktop))
    by (apply RegexFacts.test_false_spec; vm_compute; reflexivity).
  split; [exact H | split; [exact Hua|]].
  destruct (handleDirectCall_desktop drSarah openDesktop H Hua)
    as (t & _ & Hnote & Hnav & _ & _ & Hvis & _).
  exists t. split; [exact Hnote | split; [exact Hnav | exact Hvis]].
Defined.

Lemma handleDirectCall_mobile_witness :
  OpenWith drSarah openMobile /\
  (exists word, In word mobilePlatforms /\
                Regex.Occurs true word (userAgent openMobile)) /\
  navigations (effects (exec handleDirectCall openMobile))
    = [("tel:15551234567", None)] /\
  notifications (effects (exec handleDirectCall openMobile)) = [] /\
  showCallDialog (exec handleDirectCall openMobile) = false.
Proof.
  assert (H : OpenWith drSarah openMobile) by (split; reflexivity).
  assert (Hua : exists word, In word mobilePlatforms /\
                  Regex.Occurs true word (userAgent openMobile)).
  { exists "Android". split; [simpl; tauto|].
    exists "Mozilla/5.0 (Linux; ", "ANDROID",
      " 14; Pixel 8) AppleWebKit/537.36 Mobile Safari/537.36".
    split; [reflexivity | vm_compute; tauto]. }
  split; [exact H | split; [exact Hua|]].
  destruct (handleDirectCall_mobile drSarah openMobile H Hua)
    as (_ & Hnav & Hnote & Hvis & _).
  split; [exact Hnav | split; [exact Hnote | exact Hvis]].
Defined.

Lemma handleCancel_open_witness :
  OpenWith drSarah openDesktop /\
  effects (exec handleCancel openDesktop) = effects openDesktop /\
  showCallDialog (exec handleCancel openDesktop) = false /\
  callingDoctor (exec handleCancel openDesktop) = Some drSarah.
Proof.
  assert (H : OpenWith drSarah openDesktop) by (split; reflexivity).
  split; [exact H|].
  exact (handleCancel_open drSarah openDesktop H).
Defined.

Lemma handlers_without_target_witness :
  callingDoctor closedDesktop = None /\
  handleWhatsAppCall closedDesktop = (tt, closedDesktop) /\
  handleDirectCall closedDesktop = (tt, closedDesktop).
Proof.
  split; [reflexivity|].
  exact (handlers_without_target closedDesktop eq_refl).
Defined.

(** The messaging action leaves the target set: the dialog open on the
    sample contact is not [Closed] afterwards. *)
Lemma handleWhatsAppCall_not_Closed :
  OpenWith drSarah openDesktop /\
  callingDoctor (exec handleWhatsAppCall openDesktop) = Some drSarah /\
  ~ Closed (exec handleWhatsAppCall openDesktop).
Proof.
  split; [split; reflexivity | split; [reflexivity|]].
  intros [Htarget _]. discriminate Htarget.
Qed.

(** The direct-call action on a desktop leaves the target set. *)
Lemma handleDirectCall_desktop_not_Closed :
  OpenWith drSarah openDesktop /\
  isMobile (userAgent openDesktop) = false /\
  callingDoctor (exec handleDirectCall openDesktop) = Some drSarah /\
  ~ Closed (exec handleDirectCall openDesktop).
Proof.
  split; [split; reflexivity | split; [reflexivity | split; [reflexivity|]]].
  intros [Htarget _]. discriminate Htarget.
Qed.

(** The direct-call action on a mobile leaves the target set. *)
Lemma handleDirectCall_mobile_not_Closed :
  OpenWith drSarah openMobile /\
  isMobile (userAgent openMobile) = true /\
  callingDoctor (exec handleDirectCall openMobile) = Some drSarah /\
  ~ Closed (exec handleDirectCall openMobile).
Proof.
  split; [split; reflexivity | split; [reflexivity | split; [reflexivity|]]].
  intros [Htarget _]. discriminate Htarget.
Qed.

(** Cancel leaves the target set. *)
Lemma handleCancel_not_Closed :
  OpenWith drSarah openDesktop /\
  callingDoctor (exec handleCancel openDesktop) = Some drSarah /\
  ~ Closed (exec handleCancel openDesktop).
Proof.
  split; [split; reflexivity | split; [reflexivity|]].
  intros [Htarget _]. discriminate Htarget.
Qed.

(** * Rendering and sequences of operations *)

(** ** Initials *)

Module WordsFacts.
Import Words.

Lemma lacks_append (c : ascii) (a b : string) :
  lacks c (a ++ b) <-> lacks c a /\ lacks c b.
Proof.
  induction a as [|x a IH]; simpl; [tauto|]. rewrite IH. tauto.
Qed.

Lemma pieces_append_sep (sep : ascii) (a b : string) :
  pieces sep (a ++ String sep b)
  = (fst (pieces sep a), (snd (pieces sep a) ++ split b sep)%list).
Proof.
  induction a as [|x a IH]; simpl.
  - rewrite Ascii.eqb_refl. unfold split.
    destruct (pieces sep b) as [w ws]. reflexivity.
  - rewrite IH. destruct (pieces sep a) as [w ws]. simpl.
    destruct (Ascii.eqb x sep); reflexivity.
Qed.

Lemma split_append_sep (sep : ascii) (a b : string) :
  split (a ++ String sep b) sep = (split a sep ++ split b sep)%list.
Proof.
  unfold split at 1 2. rewrite pieces_append_sep.
  destruct (pieces sep a) as [w ws]. reflexivity.
Qed.

Lemma pieces_lacks (sep : ascii) (w : string) :
  lacks sep w -> pieces sep w = (w, []).
Proof.
  induction w as [|x w IH]; simpl; [reflexivity|].
  intros [Hx Hw]. rewrite (IH Hw).
  destruct (Ascii.eqb x sep) eqn:E; [|reflexivity].
  apply Ascii.eqb_eq in E. contradiction.
Qed.

Lemma split_lacks (sep : ascii) (s : string) :
  Forall (lacks sep) (split s sep).
Proof.
  unfold split. induction s as [|x s IH]; simpl.
  - repeat constructor.
  - destruct (pieces sep s) as [w ws].
    inversion IH as [|? ? Hw Hws]; subst.
    destruct (Ascii.eqb x sep) eqn:E.
    + constructor; [exact I | constructor; assumption].
    + constructor; [|assumption]. simpl. split; [|assumption].
      intros ->. rewrite Ascii.eqb_refl in E. discriminate.
Qed.

(** Splitting at the spaces and putting the spaces back is the identity. *)
Lemma concat_split (sep : ascii) (s : string) :
  String.concat (String sep "") (split s sep) = s.
Proof.
  unfold split. induction s as [|x s IH]; [reflexivity|].
  simpl pieces. destruct (pieces sep s) as [w ws].
  destruct (Ascii.eqb x sep) eqn:E.
  - apply Ascii.eqb_eq in E; subst x.
    change (String.concat (String sep "") ("" :: w :: ws))
      with (String sep (String.concat (String sep "") (w :: ws))).
    now rewrite IH.
  - destruct ws as [|w' ws]; simpl in *; now rewrite <- IH.
Qed.

(** Words without a space, joined by single spaces, split back into
    themselves. *)
Lemma split_concat (sep : ascii) (w : string) (ws : list string) :
  Forall (lacks sep) (w :: ws) ->
  split (String.concat (String sep "") (w :: ws)) sep = w :: ws.
Proof.
  revert w; induction ws as [|w' ws IH]; intros w H.
  - inversion H; subst. unfold split. simpl.
    now rewrite pieces_lacks.
  - inversion H as [|? ? Hw Hrest]; subst.
    change (String.concat (String sep "") (w :: w' :: ws))
      with (w ++ String sep (String.concat (String sep "") (w' :: ws))).
    rewrite split_append_sep, (IH w' Hrest).
    unfold split. now rewrite pieces_lacks.
Qed.

Lemma join_cons_empty (x : option string) (l : list (option string)) :
  join (x :: l) "" = element_string x ++ join l "".
Proof.
  destruct l; simpl; [now rewrite StrFacts.append_empty_r | reflexivity].
Qed.

Lemma join_app_empty (l1 l2 : list (option string)) :
  join (l1 ++ l2) "" = join l1 "" ++ join l2 "".
Proof.
  induction l1 as [|x l1 IH]; [reflexivity|].
  rewrite <- app_comm_cons, !join_cons_empty, IH.
  now rewrite StrFacts.append_assoc.
Qed.

Lemma join_concat (l : list (option string)) :
  join l "" = String.concat "" (map element_string l).
Proof.
  induction l as [|x l IH]; [reflexivity|].
  rewrite join_cons_empty, IH. simpl.
  destruct (map element_string l) eqn:E; simpl.
  - now rewrite StrFacts.append_empty_r.
  - reflexivity.
Qed.

Lemma first_lacks (sep : ascii) (w : string) :
  lacks sep w -> lacks sep (element_string (first w)).
Proof. destruct w; simpl; tauto. Qed.

Lemma join_lacks (sep : ascii) (ws : list string) :
  Forall (lacks sep) ws -> lacks sep (join (map first ws) "").
Proof.
  induction 1 as [|w ws Hw _ IH]; [exact I|].
  cbn [map]. rewrite join_cons_empty. apply lacks_append.
  split; [now apply first_lacks | exact IH].
Qed.

End WordsFacts.

Lemma initials_cons_space (s : string) :
  initials (String " " s) = initials s.
Proof.
  unfold initials, Words.split. simpl Words.pieces.
  destruct (Words.pieces " " s) as [w ws]. simpl Ascii.eqb. cbv iota.
  cbn [map]. now rewrite WordsFacts.join_cons_empty.
Qed.

Lemma initials_cons_letter (c : ascii) (s : string) :
  c <> " "%char -> exists rest, initials (String c s) = String c rest.
Proof.
  intros Hc. unfold initials, Words.split. simpl Words.pieces.
  destruct (Words.pieces " " s) as [w ws].
  destruct (Ascii.eqb c " ") eqn:E.
  - apply Ascii.eqb_eq in E. contradiction.
  - cbn [map]. rewrite WordsFacts.join_cons_empty. simpl. eauto.
Qed.

(** X1. The initials of two names put side by side with a space are the
    initials of the first followed by the initials of the second. *)
Theorem initials_append (a b : string) :
  initials (a ++ " " ++ b) = initials a ++ initials b.
Proof.
  unfold initials. change (a ++ " " ++ b) with (a ++ String " " b).
  rewrite WordsFacts.split_append_sep, map_app.
  apply WordsFacts.join_app_empty.
Qed.

(** X2. For words that contain no space, the initials of the words joined
    by single spaces are the first characters of the words, in order (an
    empty word gives none). *)
Theorem initials_of_words (ws : list string) :
  Forall (Words.lacks " ") ws ->
  initials (String.concat " " ws)
  = String.concat "" (map (fun w => Words.element_string (Words.first w)) ws).
Proof.
  intros H. destruct ws as [|w ws]; [reflexivity|].
  unfold initials. rewrite (WordsFacts.split_concat " " w ws H).
  now rewrite WordsFacts.join_concat, map_map.
Qed.

(** X3. The initials never contain a space, and there are at most as many
    as the name has characters. *)
Theorem initials_no_space (name : string) :
  Words.lacks " " (initials name) /\
  String.length (initials name) <= String.length name.
Proof.
  split.
  - apply WordsFacts.join_lacks, WordsFacts.split_lacks.
  - induction name as [|c s IH]; [apply Nat.le_refl|].
    destruct (Ascii.eqb c " ") eqn:E.
    + apply Ascii.eqb_eq in E; subst c. rewrite initials_cons_space.
      simpl. lia.
    + unfold initials, Words.split in *. simpl Words.pieces.
      destruct (Words.pieces " " s) as [w ws]. rewrite E.
      cbn [map] in *. rewrite WordsFacts.join_cons_empty in *.
      destruct w as [|x w]; simpl in *; lia.
Qed.

(** X4. The initials are empty exactly when the name is empty or made of
    spaces only. *)
Theorem initials_empty_iff (name : string) :
  initials name = "" <-> Words.only " " name.
Proof.
  induction name as [|c s IH]; [simpl; tauto|].
  destruct (Ascii.eqb c " ") eqn:E.
  - apply Ascii.eqb_eq in E; subst c. rewrite initials_cons_space, IH.
    simpl. tauto.
  - assert (Hc : c <> " "%char)
      by (intros ->; rewrite Ascii.eqb_refl in E; discriminate).
    destruct (initials_cons_letter c s Hc) as [rest ->].
    simpl. split; [discriminate | tauto].
Qed.

(** ** Stars, badge and buttons of a row *)

(** X5. Of the five stars, the first [k] are yellow and the others gray,
    where [k] is the floor of the rating cut to the range 0..5: a rating of
    5 or more fills all five and a rating below 1, or negative, fills
    none. *)
Theorem stars_shape (floor : Z) :
  stars floor
  = (repeat true (Z.to_nat (Z.max 0 (Z.min 5 floor)))
     ++ repeat false (5 - Z.to_nat (Z.max 0 (Z.min 5 floor))))%list.
Proof.
  unfold stars. cbn [seq map].
  assert (H : (floor <= 0 \/ floor = 1 \/ floor = 2 \/ floor = 3 \/
               floor = 4 \/ 5 <= floor)%Z) by lia.
  destruct H as [H|[H|[H|[H|[H|H]]]]]; try (subst floor; reflexivity).
  - replace (Z.max 0 (Z.min 5 floor)) with 0%Z by lia.
    repeat match goal with
    | |- context [(?a <? floor)%Z] =>
        replace (a <? floor)%Z with false
          by (symmetry; apply Z.ltb_ge; cbn; lia)
    end.
    reflexivity.
  - replace (Z.max 0 (Z.min 5 floor)) with 5%Z by lia.
    repeat match goal with
    | |- context [(?a <? floor)%Z] =>
        replace (a <? floor)%Z with true
          by (symmetry; apply Z.ltb_lt; cbn; lia)
    end.
    reflexivity.
Qed.

(** X6. The badge colour tells the availability: two contacts with the same
    badge class have the same availability, and the class is the green one
    exactly for an available contact. *)
Theorem badgeClass_injective (a b : Availability) :
  (badgeClass a = badgeClass b -> a = b) /\
  (badgeClass a = "bg-green-500" <-> a = Available).
Proof.
  split.
  - destruct a, b; simpl; intros H; try reflexivity; discriminate H.
  - destruct a; simpl; split; intros H; try reflexivity; discriminate H.
Qed.

Section RowFacts.

Variable toLowerCase : string -> string.

(** X7. The call button of a row is disabled exactly when the handler
    would refuse the contact: on an enabled button [handleCallDoctor] opens
    the dialog on the contact of the row without any notification, and on a
    disabled one it would only notify and leave the dialog state as it
    is. The two buttons of a row are enabled together, and the first one
    reads "Connect Now" exactly then. *)
Theorem callButton_matches_handler (sel : option Doctor) (d : Doctor)
  (w : World) :
  row_callDisabled (renderRow sel d) = row_connectDisabled (renderRow sel d) /\
  (row_connectLabel (renderRow sel d) = "Connect Now"
   <-> row_callDisabled (renderRow sel d) = false) /\
  (row_callDisabled (renderRow sel d) = false ->
   OpenWith d (exec (handleCallDoctor toLowerCase d) w) /\
   notifications (effects (exec (handleCallDoctor toLowerCase d) w))
     = notifications (effects w)) /\
  (row_callDisabled (renderRow sel d) = true ->
   callingDoctor (exec (handleCallDoctor toLowerCase d) w) = callingDoctor w /\
   showCallDialog (exec (handleCallDoctor toLowerCase d) w)
     = showCallDialog w /\
   List.length (notifications
                  (effects (exec (handleCallDoctor toLowerCase d) w)))
     = S (List.length (notifications (effects w)))).
Proof.
  unfold OpenWith. cbn [renderRow row_callDisabled row_connectDisabled
    row_connectLabel].
  run_handler.
  destruct (availability d); cbn [availability_eqb negb]; run_handler;
    rewrite ?notifications_app, ?length_app; cbn [notifications flat_map app
      List.length];
    rewrite ?app_nil_r;
    repeat split; intros; try reflexivity; try discriminate; lia.
Qed.

End RowFacts.

(** ** The list view *)

(** Filtering keeps the ids pairwise different. *)
Lemma filter_ids_NoDup (keep : Doctor -> bool) (ds : list Doctor) :
  NoDup (map id ds) -> NoDup (map id (filter keep ds)).
Proof.
  intros Hids. induction ds as [|c ds IH]; [constructor|].
  simpl in Hids. inversion Hids as [|? ? Hc Hrest]; subst.
  simpl. destruct (keep c); simpl; [constructor|]; auto.
  intros Hin. apply Hc. apply in_map_iff in Hin as (c' & Hid & Hin).
  apply in_map_iff. exists c'. split; [assumption|].
  now apply filter_In in Hin.
Qed.

Lemma selected_at_most_once (k : string) (l : list Doctor) :
  NoDup (map id l) ->
  List.length (filter (fun d => String.eqb k (id d)) l) <= 1.
Proof.
  induction l as [|x l IH]; simpl; intros H; [lia|].
  inversion H as [|? ? Hx Hl]; subst.
  destruct (String.eqb k (id x)) eqn:E; [|auto].
  apply String.eqb_eq in E; subst k. simpl.
  assert (Hnone : filter (fun d => String.eqb (id x) (id d)) l = []).
  { destruct (filter (fun d => String.eqb (id x) (id d)) l) as [|y ys] eqn:F;
      [reflexivity|].
    assert (Hy : In y (filter (fun d => String.eqb (id x) (id d)) l))
      by (rewrite F; now left).
    apply filter_In in Hy as [Hin Heq]. apply String.eqb_eq in Heq.
    exfalso. apply Hx. rewrite Heq. now apply in_map. }
  rewrite Hnone. simpl. lia.
Qed.

Section RenderFacts.

Variable toLowerCase : string -> string.

Lemma render_Rows (ds : list Doctor) (sel : option Doctor) (term : string)
  (rows : list Row) :
  render toLowerCase ds sel term = Rows rows ->
  rows = map (renderRow sel) (filteredDoctors toLowerCase ds term).
Proof.
  unfold render.
  destruct (Nat.eqb (List.length (filteredDoctors toLowerCase ds term)) 0);
    [discriminate|].
  now intros [= <-].
Qed.

(** X8. The no-result message is shown exactly when no contact of the
    list matches the search term; otherwise there is one row per matching
    contact, in the order of the list, keyed by the contact's id, and the
    rows are never an empty list. *)
Theorem render_NoResults_iff (ds : list Doctor) (sel : option Doctor)
  (term : string) :
  (render toLowerCase ds sel term = NoResults
   <-> forall c, In c ds -> ~ Matches toLowerCase term c) /\
  (forall rows, render toLowerCase ds sel term = Rows rows ->
     rows <> [] /\
     map row_key rows = map id (filteredDoctors toLowerCase ds term) /\
     map row_name rows = map name (filteredDoctors toLowerCase ds term)).
Proof.
  split.
  - unfold render.
    destruct (filteredDoctors toLowerCase ds term) as [|c0 l] eqn:E; simpl.
    + split; [intros _ | reflexivity].
      intros c Hin HM.
      assert (Hc : In c (filteredDoctors toLowerCase ds term)).
      { unfold filteredDoctors. apply filter_In. split; [assumption|].
        now apply filter_test_spec. }
      rewrite E in Hc. exact Hc.
    + split; [discriminate|]. intros Hnone. exfalso.
      assert (Hc : In c0 (filteredDoctors toLowerCase ds term))
        by (rewrite E; now left).
      unfold filteredDoctors in Hc. apply filter_In in Hc as [Hin Ht].
      apply filter_test_spec in Ht. exact (Hnone c0 Hin Ht).
  - intros rows Hr. pose proof (render_Rows _ _ _ _ Hr) as ->.
    rewrite !map_map. cbn [renderRow row_key row_name].
    repeat split; try reflexivity.
    unfold render in Hr.
    destruct (filteredDoctors toLowerCase ds term); [discriminate|].
    discriminate.
Qed.

(** X9. When the ids of the supplied contacts are pairwise different, the
    keys of the rendered rows are pairwise different, whatever the search
    term. *)
Theorem render_keys_NoDup (ds : list Doctor) (sel : option Doctor)
  (term : string) (rows : list Row) :
  NoDup (map id ds) ->
  render toLowerCase ds sel term = Rows rows ->
  NoDup (map row_key rows).
Proof.
  intros Hids Hr. rewrite (render_Rows _ _ _ _ Hr), map_map.
  cbn [renderRow row_key]. unfold filteredDoctors.
  now apply filter_ids_NoDup.
Qed.

(** X10. When the ids of the supplied contacts are pairwise different, at
    most one row is highlighted, and a highlighted row has the id of the
    selected contact; with no selected contact no row is highlighted. *)
Theorem render_highlight (ds : list Doctor) (sel : option Doctor)
  (term : string) (rows : list Row) :
  NoDup (map id ds) ->
  render toLowerCase ds sel term = Rows rows ->
  List.length (filter row_highlighted rows) <= 1 /\
  (forall r, In r rows -> row_highlighted r = true ->
     exists s, sel = Some s /\ id s = row_key r) /\
  (sel = None -> filter row_highlighted rows = []).
Proof.
  intros Hids Hr. rewrite (render_Rows _ _ _ _ Hr).
  assert (Hf : NoDup (map id (filteredDoctors toLowerCase ds term)))
    by (unfold filteredDoctors; now apply filter_ids_NoDup).
  set (l := filteredDoctors toLowerCase ds term) in *. clearbody l.
  split; [|split].
  - destruct sel as [s|]; simpl.
    + pose proof (selected_at_most_once (id s) l Hf) as Hm.
      replace (List.length (filter row_highlighted (map (renderRow (Some s)) l)))
        with (List.length (filter (fun d => String.eqb (id s) (id d)) l));
        [exact Hm|].
      clear. induction l as [|x l IH]; [reflexivity|]. simpl.
      destruct (String.eqb (id s) (id x)); simpl; now rewrite IH.
    + clear. induction l as [|x l IH]; simpl; [lia | exact IH].
  - intros r Hin Hh. apply in_map_iff in Hin as (d & <- & _).
    cbn [renderRow row_highlighted row_key] in *.
    destruct sel as [s|]; simpl in Hh; [|discriminate].
    exists s. split; [reflexivity | now apply String.eqb_eq].
  - intros ->. clear. induction l as [|x l IH]; simpl; [reflexivity | exact IH].
Qed.

End RenderFacts.

(** ** Sequences of operations *)

(** Splits a goal on what a handler tests. *)
Ltac split_handler :=
  repeat (match goal with
          | |- context [availability_eqb (availability ?d) Available] =>
              destruct (availability d) eqn:?; cbn [availability_eqb negb]
          | |- context [match callingDoctor ?w with _ => _ end] =>
              destruct (callingDoctor w) eqn:?
          | |- context [if isMobile ?u then _ else _] =>
              destruct (isMobile u) eqn:?
          end; run_handler);
  repeat match goal with
  | H : callingDoctor ?w = _ |- context [callingDoctor ?w] => rewrite H
  end.

Section Sequences.

Variable toLowerCase : string -> string.

Lemma exec_runOps_cons (o : Op) (ops : list Op) (w : World) :
  exec (runOps toLowerCase (o :: ops)) w
  = exec (runOps toLowerCase ops) (exec (runOp toLowerCase o) w).
Proof.
  cbn [runOps]. unfold exec, bind.
  destruct (runOp toLowerCase o w) as [u w1]. reflexivity.
Qed.

Lemma exec_runOps_app (l1 l2 : list Op) (w : World) :
  exec (runOps toLowerCase (l1 ++ l2)) w
  = exec (runOps toLowerCase l2) (exec (runOps toLowerCase l1) w).
Proof.
  revert w; induction l1 as [|o l1 IH]; intros w; [reflexivity|].
  rewrite <- app_comm_cons, !exec_runOps_cons. apply IH.
Qed.

Lemma reached_snoc (ds : list Doctor) (ua : string) (ops : list Op) (o : Op) :
  reached toLowerCase ds ua (ops ++ [o])
  = exec (runOp toLowerCase o) (reached toLowerCase ds ua ops).
Proof.
  unfold reached. rewrite exec_runOps_app, exec_runOps_cons. reflexivity.
Qed.

Lemma runOp_userAgent (o : Op) (w : World) :
  userAgent (exec (runOp toLowerCase o) w) = userAgent w.
Proof.
  destruct o; unfold runOp; run_handler; split_handler; reflexivity.
Qed.

Lemma reached_userAgent (ds : list Doctor) (ua : string) (ops : list Op) :
  userAgent (reached toLowerCase ds ua ops) = ua.
Proof.
  induction ops as [|o ops IH] using rev_ind; [reflexivity|].
  now rewrite reached_snoc, runOp_userAgent.
Qed.

(** The target is an available contact that was called, and a visible
    dialog has a target: kept by every operation. *)
Lemma target_step (ops : list Op) (o : Op) (w : World) :
  (forall d, callingDoctor w = Some d ->
             availability d = Available /\ In (OpCallDoctor d) ops) ->
  (showCallDialog w = true -> callingDoctor w <> None) ->
  (forall d, callingDoctor (exec (runOp toLowerCase o) w) = Some d ->
             availability d = Available /\ In (OpCallDoctor d) (ops ++ [o])) /\
  (showCallDialog (exec (runOp toLowerCase o) w) = true ->
   callingDoctor (exec (runOp toLowerCase o) w) <> None).
Proof.
  intros Ht Hv.
  assert (Hmono : forall d, callingDoctor w = Some d ->
            availability d = Available /\ In (OpCallDoctor d) (ops ++ [o])).
  { intros d Hd. destruct (Ht d Hd) as [Ha Hin].
    split; [assumption | apply in_or_app; now left]. }
  destruct o as [s| |d0| | |]; unfold runOp; run_handler; split_handler;
    try (split; [exact Hmono | exact Hv]);
    try (split; [exact Hmono | discriminate]);
    try (split; [exact Hmono | congruence]).
  split; [|discriminate].
  intros d [= <-]. split; [assumption|].
  apply in_or_app. right. now left.
Qed.

Lemma reached_target_aux (ds : list Doctor) (ua : string) (ops : list Op) :
  (forall d, callingDoctor (reached toLowerCase ds ua ops) = Some d ->
             availability d = Available /\ In (OpCallDoctor d) ops) /\
  (showCallDialog (reached toLowerCase ds ua ops) = true ->
   callingDoctor (reached toLowerCase ds ua ops) <> None).
Proof.
  induction ops as [|o ops IH] using rev_ind.
  - split; [intros d Hd; discriminate Hd | intros Hv; discriminate Hv].
  - rewrite reached_snoc. destruct IH as [Ht Hv].
    now apply target_step.
Qed.

(** X11. In every state the component reaches from its initial state, a
    target contact, if set, is an available contact on which a
    contact-attempt was made, and a visible dialog always has such a
    target. *)
Theorem reached_target_available (ds : list Doctor) (ua : string)
  (ops : list Op) :
  (forall d, callingDoctor (reached toLowerCase ds ua ops) = Some d ->
             availability d = Available /\ In (OpCallDoctor d) ops) /\
  (showCallDialog (reached toLowerCase ds ua ops) = true ->
   exists d, callingDoctor (reached toLowerCase ds ua ops) = Some d /\
             availability d = Available).
Proof.
  destruct (reached_target_aux ds ua ops) as [Ht Hv].
  split; [exact Ht|].
  intros Hvis. specialize (Hv Hvis).
  destruct (callingDoctor (reached toLowerCase ds ua ops)) as [d|] eqn:E;
    [|contradiction].
  exists d. split; [reflexivity | now apply Ht].
Qed.

Lemma navigations_step (ops : list Op) (o : Op) (w : World) :
  (forall d, callingDoctor w = Some d ->
             availability d = Available /\ In (OpCallDoctor d) ops) ->
  Forall (CallsAvailable ops) (navigations (effects w)) ->
  Forall (CallsAvailable (ops ++ [o]))
         (navigations (effects (exec (runOp toLowerCase o) w))).
Proof.
  intros Ht Hnav.
  assert (Hmono : Forall (CallsAvailable (ops ++ [o]))
                         (navigations (effects w))).
  { eapply Forall_impl; [|exact Hnav].
    intros nav (d & Ha & Hin & Hl). exists d.
    split; [assumption | split; [apply in_or_app; now left | assumption]]. }
  assert (Hlink : forall d nav, callingDoctor w = Some d ->
            nav = whatsappLink d \/ nav = telLink d ->
            CallsAvailable (ops ++ [o]) nav).
  { intros d nav Hd Hl. destruct (Ht d Hd) as [Ha Hin]. exists d.
    split; [assumption | split; [apply in_or_app; now left | assumption]]. }
  destruct o as [s| |d0| | |]; unfold runOp; run_handler; split_handler;
    rewrite ?navigations_app; cbn [navigations flat_map app];
    rewrite ?app_nil_r; try exact Hmono.
  - apply Forall_app. split; [exact Hmono|]. constructor; [|constructor].
    eapply Hlink; [reflexivity | left; reflexivity].
  - apply Forall_app. split; [exact Hmono|]. constructor; [|constructor].
    eapply Hlink; [reflexivity | right; reflexivity].
Qed.

(** X12. Every navigation the component has performed, after any
    operations from its initial state, is the messaging link or the
    telephone link of an available contact on which a contact-attempt was
    made: no link is ever opened for a busy or away contact. *)
Theorem reached_navigations_available (ds : list Doctor) (ua : string)
  (ops : list Op) :
  Forall (CallsAvailable ops)
         (navigations (effects (reached toLowerCase ds ua ops))).
Proof.
  induction ops as [|o ops IH] using rev_ind; [constructor|].
  rewrite reached_snoc. apply navigations_step; [|exact IH].
  apply (proj1 (reached_target_aux ds ua ops)).
Qed.

Lemma environment_step (o : Op) (w : World) :
  (isMobile (userAgent w) = false ->
   Forall (fun nav => exists d, nav = whatsappLink d)
          (navigations (effects w))) ->
  (isMobile (userAgent w) = true ->
   Forall (fun t => variant t = Some VariantDestructive)
          (notifications (effects w))) ->
  (isMobile (userAgent w) = false ->
   Forall (fun nav => exists d, nav = whatsappLink d)
          (navigations (effects (exec (runOp toLowerCase o) w)))) /\
  (isMobile (userAgent w) = true ->
   Forall (fun t => variant t = Some VariantDestructive)
          (notifications (effects (exec (runOp toLowerCase o) w)))).
Proof.
  intros Hnav Hnote.
  destruct o as [s| |d0| | |]; unfold runOp; run_handler; split_handler;
    rewrite ?navigations_app, ?notifications_app;
    cbn [navigations notifications flat_map app]; rewrite ?app_nil_r;
    (split; [intros Hd | intros Hm]); auto; try congruence;
    apply Forall_app; (split; [auto|]);
    (constructor; [|constructor]); try reflexivity;
    try (eexists; reflexivity); eauto.
Qed.

(** X13. The environment decides what the direct-call action may have
    done: after any operations from the initial state, in a non-mobile
    environment every navigation performed is a messaging link opened in a
    new browsing context (never a telephone link), and in a mobile
    environment every notification shown is the destructive one of an
    unavailable contact (never the mobile-only notice). *)
Theorem reached_effects_environment (ds : list Doctor) (ua : string)
  (ops : list Op) :
  (isMobile ua = false ->
   Forall (fun nav => exists d, nav = whatsappLink d)
          (navigations (effects (reached toLowerCase ds ua ops)))) /\
  (isMobile ua = true ->
   Forall (fun t => variant t = Some VariantDestructive)
          (notifications (effects (reached toLowerCase ds ua ops)))).
Proof.
  induction ops as [|o ops IH] using rev_ind.
  - split; intros _; constructor.
  - rewrite reached_snoc.
    pose proof (environment_step o (reached toLowerCase ds ua ops)) as Hs.
    rewrite reached_userAgent in Hs. destruct IH as [Hnav Hnote].
    exact (Hs Hnav Hnote).
Qed.

Lemma runOp_target_kept (o : Op) (w : World) :
  callingDoctor w <> None ->
  callingDoctor (exec (runOp toLowerCase o) w) <> None.
Proof.
  intros Hset.
  destruct o as [s| |d0| | |]; unfold runOp; run_handler; split_handler;
    try exact Hset; discriminate.
Qed.

(** X14. No operation clears the target contact: once a target is set it
    stays set (to some contact) through any later operations. *)
Theorem target_never_cleared (ops : list Op) (w : World) :
  callingDoctor w <> None ->
  callingDoctor (exec (runOps toLowerCase ops) w) <> None.
Proof.
  revert w; induction ops as [|o ops IH]; intros w Hset; [exact Hset|].
  rewrite exec_runOps_cons. apply IH. now apply runOp_target_kept.
Qed.

(** X15. Typing in the search box and any other operation do not
    interfere: done in either order they give the same state and the same
    effects, and an operation other than typing leaves the filtered rows as
    they were. *)
Theorem search_commutes (s : string) (o : Op) (w : World) :
  (forall s', o <> OpSearch s') ->
  exec (runOps toLowerCase [OpSearch s; o]) w
  = exec (runOps toLowerCase [o; OpSearch s]) w /\
  eval (renderRows toLowerCase) (exec (runOp toLowerCase o) w)
  = eval (renderRows toLowerCase) w.
Proof.
  intros Hnot. rewrite !exec_runOps_cons.
  destruct o as [s'| |d0| | |];
    [exfalso; exact (Hnot s' eq_refl) | ..];
    unfold runOp; run_handler; split_handler; split; reflexivity.
Qed.

Lemma runOp_effects (o : Op) (w : World) :
  exists new,
    effects (exec (runOp toLowerCase o) w) = (effects w ++ new)%list /\
    List.length (notifications new) + List.length (navigations new) <= 1.
Proof.
  destruct o as [s| |d0| | |]; unfold runOp; run_handler; split_handler;
    eexists;
    (split;
     [ first [ reflexivity
             | symmetry; apply app_nil_r
             | rewrite <- app_assoc; reflexivity ]
     | simpl; lia ]).
Qed.

(** X16. The effect log only grows, and an operation adds at most one
    notification or navigation, never both: after any operations the
    notifications and navigations added are together at most as many as the
    operations. *)
Theorem runOps_effects_bound (ops : list Op) (w : World) :
  exists new,
    effects (exec (runOps toLowerCase ops) w) = (effects w ++ new)%list /\
    List.length (notifications new) + List.length (navigations new)
    <= List.length ops.
Proof.
  revert w; induction ops as [|o ops IH]; intros w.
  - exists []. split; [symmetry; apply app_nil_r | simpl; lia].
  - rewrite exec_runOps_cons.
    destruct (runOp_effects o w) as (n1 & E1 & L1).
    destruct (IH (exec (runOp toLowerCase o) w)) as (n2 & E2 & L2).
    exists (n1 ++ n2)%list. split.
    + now rewrite E2, E1, app_assoc.
    + rewrite notifications_app, navigations_app, !length_app.
      simpl. lia.
Qed.

(** X17. The messaging action tests the target only, not the visibility
    of the dialog: with a target set, [n] messaging actions in a row open
    the link of the target [n] times, although the first one already hid
    the dialog. *)
Theorem whatsapp_repeats (n : nat) (d : Doctor) (w : World) :
  callingDoctor w = Some d ->
  navigations (effects (exec (runOps toLowerCase (repeat OpWhatsApp n)) w))
  = (navigations (effects w) ++ repeat (whatsappLink d) n)%list /\
  notifications (effects (exec (runOps toLowerCase (repeat OpWhatsApp n)) w))
  = notifications (effects w).
Proof.
  revert w; induction n as [|n IH]; intros w Ht.
  - simpl. now rewrite app_nil_r.
  - cbn [repeat]. rewrite exec_runOps_cons.
    assert (Ht' : callingDoctor (exec (runOp toLowerCase OpWhatsApp) w)
                  = Some d).
    { unfold runOp. run_handler. rewrite Ht. run_handler. exact Ht. }
    destruct (IH _ Ht') as [Hnav Hnote]. rewrite Hnav, Hnote.
    unfold runOp. run_handler. rewrite Ht. run_handler.
    rewrite navigations_app, notifications_app.
    cbn [navigations notifications flat_map app]. rewrite !app_nil_r.
    split; [|reflexivity].
    now rewrite <- app_assoc.
Qed.

End Sequences.

(** ** More on the search filter *)

Lemma Substring_refl (s : string) : Str.Substring s s.
Proof. exists "", "". simpl. now rewrite StrFacts.append_empty_r. Qed.

Lemma Substring_trans (a b c : string) :
  Str.Substring a b -> Str.Substring b c -> Str.Substring a c.
Proof.
  intros (p1 & q1 & ->) (p2 & q2 & ->).
  exists (p2 ++ p1), (q1 ++ q2).
  now rewrite !StrFacts.append_assoc.
Qed.

Section FilterFacts.

Variable toLowerCase : string -> string.

Lemma Matches_narrow (s s' : string) (c : Doctor) :
  Str.Substring (toLowerCase s) (toLowerCase s') ->
  Matches toLowerCase s' c -> Matches toLowerCase s c.
Proof.
  intros Hsub [H|H]; [left | right]; eapply Substring_trans; eauto.
Qed.

(** X18. Refining a search is searching within the results: when the
    folded term [s] is a substring of the folded term [s'], filtering by
    [s'] the list already filtered by [s] gives what filtering the whole
    list by [s'] gives. In particular filtering twice by the same term
    changes nothing. *)
Theorem filteredDoctors_refine (L : list Doctor) (s s' : string) :
  Str.Substring (toLowerCase s) (toLowerCase s') ->
  filteredDoctors toLowerCase (filteredDoctors toLowerCase L s) s'
  = filteredDoctors toLowerCase L s' /\
  filteredDoctors toLowerCase (filteredDoctors toLowerCase L s) s
  = filteredDoctors toLowerCase L s.
Proof.
  intros Hsub.
  assert (Hgen : forall t t', Str.Substring (toLowerCase t) (toLowerCase t') ->
            filteredDoctors toLowerCase (filteredDoctors toLowerCase L t) t'
            = filteredDoctors toLowerCase L t').
  { intros t t' Ht. unfold filteredDoctors.
    induction L as [|c L IH]; [reflexivity|]. simpl.
    destruct (Str.includes (toLowerCase (name c)) (toLowerCase t) ||
              Str.includes (toLowerCase (specialty c)) (toLowerCase t))
      eqn:E1;
    destruct (Str.includes (toLowerCase (name c)) (toLowerCase t') ||
              Str.includes (toLowerCase (specialty c)) (toLowerCase t'))
      eqn:E2; simpl; rewrite ?E2, ?IH; try reflexivity.
    exfalso. apply filter_test_spec in E2.
    apply (Matches_narrow t t' c Ht) in E2.
    apply filter_test_spec in E2. congruence. }
  split; [now apply Hgen | apply Hgen, Substring_refl].
Qed.

(** X19. A contact of the list is always found by its own name and by its
    own specialty, typed in full. *)
Theorem filteredDoctors_finds_own (L : list Doctor) (c : Doctor) :
  In c L ->
  In c (filteredDoctors toLowerCase L (name c)) /\
  In c (filteredDoctors toLowerCase L (specialty c)).
Proof.
  intros Hin. unfold filteredDoctors.
  split; apply filter_In; (split; [exact Hin|]); apply filter_test_spec.
  - left. apply Substring_refl.
  - right. apply Substring_refl.
Qed.

End FilterFacts.

(** ** More on the mobile test *)

Lemma canonicalize_lowerAscii (c : ascii) :
  Regex.canonicalize (Str.lowerAscii c) = Regex.canonicalize c.
Proof.
  destruct c as [b0 b1 b2 b3 b4 b5 b6 b7].
  destruct b0, b1, b2, b3, b4, b5, b6, b7; reflexivity.
Qed.

Lemma matchAt_toLowerCaseAscii (word s : string) :
  Regex.matchAt true word (Str.toLowerCaseAscii s) = Regex.matchAt true word s.
Proof.
  revert s; induction word as [|a word IH]; intros s; [reflexivity|].
  destruct s as [|b s]; [reflexivity|]. simpl.
  unfold Regex.char_eqb. now rewrite canonicalize_lowerAscii, IH.
Qed.

Lemma existsb_pointwise {A : Type} (f g : A -> bool) (l : list A) :
  (forall x, f x = g x) -> existsb f l = existsb g l.
Proof.
  intros H. induction l as [|x l IH]; [reflexivity|].
  simpl. now rewrite H, IH.
Qed.

(** X20. The mobile test ignores the case of ASCII letters: a user-agent
    string and its lower-cased form are classified alike. *)
Theorem isMobile_ignores_case (ua : string) :
  isMobile (Str.toLowerCaseAscii ua) = isMobile ua.
Proof.
  unfold isMobile. induction ua as [|c ua IH].
  - reflexivity.
  - change (Str.toLowerCaseAscii (String c ua))
      with (String (Str.lowerAscii c) (Str.toLowerCaseAscii ua)).
    cbn [Regex.test]. rewrite IH. f_equal.
    apply existsb_pointwise. intros word.
    change (String (Str.lowerAscii c) (Str.toLowerCaseAscii ua))
      with (Str.toLowerCaseAscii (String c ua)).
    apply matchAt_toLowerCaseAscii.
Qed.

(** X21. The mobile test looks for an identifier anywhere: a string that
    contains a user-agent string classified as mobile is classified as
    mobile too, whatever comes before and after. *)
Theorem isMobile_extends (pre ua post : string) :
  isMobile ua = true ->
  isMobile (pre ++ ua ++ post) = true.
Proof.
  unfold isMobile. intros H.
  apply RegexFacts.test_spec in H
    as (word & Hin & p & mid & q & -> & Hsame).
  apply RegexFacts.test_spec. exists word. split; [assumption|].
  exists (pre ++ p), mid, (q ++ post). split; [|assumption].
  now rewrite !StrFacts.append_assoc.
Qed.

(** ** Rendering and sequences on the sample data *)

Example split_samples :
  Words.split "Dr. Sarah Johnson" " " = ["Dr."; "Sarah"; "Johnson"] /\
  Words.split "a  b " " " = ["a"; ""; "b"; ""] /\
  Words.split "" " " = [""].
Proof. repeat split; reflexivity. Qed.

Example initials_samples :
  initials "Dr. Sarah Johnson" = "DSJ" /\
  initials " a  b " = "ab" /\
  initials "Cher" = "C" /\
  initials "" = "".
Proof. repeat split; reflexivity. Qed.

Example stars_samples :
  row_stars (renderRow None drSarah) = [true; true; true; true; false] /\
  stars 7 = [true; true; true; true; true] /\
  stars (-2) = [false; false; false; false; false].
Proof. repeat split; reflexivity. Qed.

Example render_samples :
  render Str.toLowerCaseAscii sampleDoctors None "dentist" = NoResults /\
  render Str.toLowerCaseAscii [] None "" = NoResults /\
  (exists r, render Str.toLowerCaseAscii sampleDoctors (Some drPriya) "OBS"
             = Rows [r] /\
             row_key r = "2" /\ row_highlighted r = true /\
             row_initials r = "DPP" /\ row_callDisabled r = true /\
             row_connectLabel r = "Unavailable" /\
             row_badgeClass r = "bg-amber-500").
Proof.
  split; [reflexivity | split; [reflexivity|]].
  eexists. split; [reflexivity|]. repeat split; reflexivity.
Qed.

Example cancel_then_whatsapp :
  effects (reached Str.toLowerCaseAscii sampleDoctors desktopAgent
             [OpCallDoctor drSarah; OpCancel; OpWhatsApp])
  = [StopPropagation; WindowOpen "https://wa.me/15551234567" "_blank"].
Proof. reflexivity. Qed.

Lemma sampleDoctors_ids : NoDup (map id sampleDoctors).
Proof.
  repeat constructor; simpl; intuition discriminate.
Defined.

Lemma initials_of_words_witness :
  Forall (Words.lacks " ") ["Dr."; "Priya"; "Patel"] /\
  initials (String.concat " " ["Dr."; "Priya"; "Patel"])
  = String.concat ""
      (map (fun w => Words.element_string (Words.first w))
           ["Dr."; "Priya"; "Patel"]).
Proof.
  assert (H : Forall (Words.lacks " ") ["Dr."; "Priya"; "Patel"])
    by (repeat constructor; discriminate).
  split; [exact H|].
  exact (initials_of_words ["Dr."; "Priya"; "Patel"] H).
Defined.

Lemma render_keys_NoDup_witness :
  NoDup (map id sampleDoctors) /\
  render Str.toLowerCaseAscii sampleDoctors (Some drPriya) "dr"
  = Rows (map (renderRow (Some drPriya)) sampleDoctors) /\
  NoDup (map row_key (map (renderRow (Some drPriya)) sampleDoctors)).
Proof.
  split; [exact sampleDoctors_ids | split; [reflexivity|]].
  exact (render_keys_NoDup Str.toLowerCaseAscii sampleDoctors (Some drPriya)
           "dr" (map (renderRow (Some drPriya)) sampleDoctors)
           sampleDoctors_ids eq_refl).
Defined.

Lemma render_highlight_witness :
  NoDup (map id sampleDoctors) /\
  render Str.toLowerCaseAscii sampleDoctors (Some drPriya) "dr"
  = Rows (map (renderRow (Some drPriya)) sampleDoctors) /\
  List.length
    (filter row_highlighted (map (renderRow (Some drPriya)) sampleDoctors))
  <= 1.
Proof.
  split; [exact sampleDoctors_ids | split; [reflexivity|]].
  exact (proj1 (render_highlight Str.toLowerCaseAscii sampleDoctors
                  (Some drPriya) "dr"
                  (map (renderRow (Some drPriya)) sampleDoctors)
                  sampleDoctors_ids eq_refl)).
Defined.

Lemma target_never_cleared_witness :
  callingDoctor openDesktop <> None /\
  callingDoctor
    (exec (runOps Str.toLowerCaseAscii
             [OpWhatsApp; OpCancel; OpCallDoctor drPriya; OpDirectCall])
          openDesktop)
  <> None.
Proof.
  assert (H : callingDoctor openDesktop <> None) by (simpl; discriminate).
  split; [exact H|].
  exact (target_never_cleared Str.toLowerCaseAscii
           [OpWhatsApp; OpCancel; OpCallDoctor drPriya; OpDirectCall]
           openDesktop H).
Defined.

Lemma search_commutes_witness :
  (forall s', OpDirectCall <> OpSearch s') /\
  exec (runOps Str.toLowerCaseAscii [OpSearch "gyn"; OpDirectCall]) openDesktop
  = exec (runOps Str.toLowerCaseAscii [OpDirectCall; OpSearch "gyn"])
         openDesktop.
Proof.
  assert (H : forall s', OpDirectCall <> OpSearch s')
    by (intros s'; discriminate).
  split; [exact H|].
  exact (proj1 (search_commutes Str.toLowerCaseAscii "gyn" OpDirectCall
                  openDesktop H)).
Defined.

Lemma whatsapp_repeats_witness :
  callingDoctor (hiddenWorld sampleDoctors desktopAgent drSarah)
  = Some drSarah /\
  navigations
    (effects (exec (runOps Str.toLowerCaseAscii (repeat OpWhatsApp 2))
                   (hiddenWorld sampleDoctors desktopAgent drSarah)))
  = [whatsappLink drSarah; whatsappLink drSarah].
Proof.
  split; [reflexivity|].
  exact (proj1 (whatsapp_repeats Str.toLowerCaseAscii 2 drSarah
                  (hiddenWorld sampleDoctors desktopAgent drSarah) eq_refl)).
Defined.

Lemma filteredDoctors_refine_witness :
  Str.Substring (Str.toLowerCaseAscii "Dr")
                (Str.toLowerCaseAscii "DR. P") /\
  filteredDoctors Str.toLowerCaseAscii
    (filteredDoctors Str.toLowerCaseAscii sampleDoctors "Dr") "DR. P"
  = filteredDoctors Str.toLowerCaseAscii sampleDoctors "DR. P".
Proof.
  assert (H : Str.Substring (Str.toLowerCaseAscii "Dr")
                            (Str.toLowerCaseAscii "DR. P"))
    by (exists "", ". p"; reflexivity).
  split; [exact H|].
  exact (proj1 (filteredDoctors_refine Str.toLowerCaseAscii sampleDoctors
                  "Dr" "DR. P" H)).
Defined.

Lemma filteredDoctors_finds_own_witness :
  In drEmily sampleDoctors /\
  In drEmily
     (filteredDoctors Str.toLowerCaseAscii sampleDoctors (name drEmily)) /\
  In drEmily
     (filteredDoctors Str.toLowerCaseAscii sampleDoctors (specialty drEmily)).
Proof.
  assert (H : In drEmily sampleDoctors) by (simpl; tauto).
  split; [exact H|].
  exact (filteredDoctors_finds_own Str.toLowerCaseAscii sampleDoctors
           drEmily H).
Defined.

Lemma isMobile_extends_witness :
  isMobile "iPad" = true /\
  isMobile ("Mozilla/5.0 (" ++ "iPad" ++ "; CPU OS 17_0 like Mac OS X)")
  = true.
Proof.
  split; [reflexivity|].
  exact (isMobile_extends "Mozilla/5.0 (" "iPad"
           "; CPU OS 17_0 like Mac OS X)" eq_refl).
Defined.
